(** * caspaxos: advertise-IP selection, cluster reconfiguration and garbage collection

    A shallow embedding of [cluster/advertise.go] (calculateAdvertiseIP) and of
    the protocol package's GrowCluster, ShrinkCluster, GarbageCollect and the
    three gc broadcast helpers, followed by the properties proved about them.

    Go values are modelled as follows.
    - [error]: an interface value; [nil] is [None].
    - [net.IP] is a byte slice: a [list Z] of octets; a nil IP is [None].
    - [Proposer] and [Acceptor] are interface values whose state lives in
      the world: handles (natural numbers) into a world [W] that provides
      the interface methods as state transformers.
    - Every interface call made by the protocol code is appended to a trace. *)

From Stdlib Require Import ZArith List String Ascii Lia DecimalString.
From stdpp Require Import base decidable option list strings gmap.
Import ListNotations.

Local Open Scope Z_scope.

(** ** Errors *)

(** Go [error] values that the code creates or compares against.
    [errorString] covers fmt.Errorf, errors.Errorf and the opaque
    errors of collaborators; [withMessage] is what errors.Wrap builds. *)
Inductive error : Type :=
| context_Canceled
| context_DeadlineExceeded
| ErrNotEmpty
| errorString (msg : string)
| withMessage (cause : error) (msg : string).

#[global] Instance error_eq_dec : EqDecision error.
Proof. solve_decision. Defined.

(** github.com/pkg/errors: "If err is nil, Wrap returns nil." *)
Definition errors_Wrap (err : option error) (message : string) : option error :=
  match err with
  | None => None
  | Some e => Some (withMessage e message)
  end.

(** The %d verb for a length. *)
Definition itoa (n : nat) : string := NilEmpty.string_of_uint (Nat.to_uint n).

Module Cluster.

(** ** net.IP *)

Definition IP : Type := list Z.

Record IPAddr : Type := mkIPAddr { addr_IP : IP; addr_Zone : string }.

Definition isZeros (p : list Z) : bool := forallb (Z.eqb 0) p.

(** net.IP.To4: the 4-byte form of an IPv4 address, nil ([None]) otherwise. *)
Definition To4 (ip : IP) : option IP :=
  if Nat.eqb (length ip) 4 then Some ip
  else if Nat.eqb (length ip) 16
          && isZeros (firstn 10 ip)
          && Z.eqb (nth 10 ip 0) 255
          && Z.eqb (nth 11 ip 0) 255
       then Some (firstn 4 (skipn 12 ip))
       else None.

(** net.IPv4(a, b, c, d): the 16-byte (IPv4-in-IPv6) form net.ParseIP returns. *)
Definition IPv4 (a b c d : Z) : IP :=
  [0;0;0;0;0;0;0;0;0;0;255;255; a; b; c; d].

(** [if ip4 := ip.To4(); ip4 != nil { ip = ip4 }] *)
Definition canonical (ip : IP) : IP :=
  match To4 ip with
  | Some ip4 => ip4
  | None => ip
  end.

(** A line written by [level.Warn(logger).Log("err", err, "msg", msg)]. *)
Record logline : Type := mkWarn { log_err : option error; log_msg : string }.

Section Advertise.

(** net.ParseIP, the resolver [r] (an interface: its state [R] is threaded
    through the calls) and sockaddr.GetPrivateIP are collaborators. *)
Variable ParseIP : string -> option IP.
Variable R : Type.
Variable LookupIPAddr : string -> R -> (list IPAddr * option error) * R.
Variable GetPrivateIP : string * option error.

Definition result : Type := (option IP * option error) * (R * list logline).

(** Lines 51-86: the bind-host part, reached when the advertise host is
    empty or did not work. *)
Definition calculateAdvertiseIP_bind (bindHost : string) (r : R) (logger : list logline)
  : result :=
  if String.eqb bindHost "0.0.0.0" then
    let '(privateIP, err) := GetPrivateIP in
    if bool_decide (err <> None) then
      (None, errors_Wrap err "failed to deduce private IP from all-zeroes bind address", (r, logger))
    else if String.eqb privateIP "" then
      (None, errors_Wrap err "no private IP found, and explicit advertise address not provided", (r, logger))
    else
      match ParseIP privateIP with
      | None =>
          (None, Some (errorString ("failed to parse private IP '" +:+ privateIP +:+ "'")), (r, logger))
      | Some ip => (Some ip, None, (r, logger))
      end
  else
    match ParseIP bindHost with
    | Some ip => (Some ip, None, (r, logger))
    | None =>
        let '(ips, err, r') := LookupIPAddr bindHost r in
        match err, ips with
        | None, [a] => (Some (canonical (addr_IP a)), None, (r', logger))
        | _, _ =>
            let err' :=
              match err with
              | None => Some (errorString ("bind host '" +:+ bindHost +:+ "' resolved to "
                                            +:+ itoa (length ips) +:+ " IPs"))
              | Some _ => err
              end in
            (None, errors_Wrap err' "bind host failed to resolve", (r', logger))
        end
    end.

Definition calculateAdvertiseIP (bindHost advertiseHost : string) (r : R) (logger : list logline)
  : result :=
  if bool_decide (advertiseHost <> "") then
    match ParseIP advertiseHost with
    | Some ip => (Some (canonical ip), None, (r, logger))
    | None =>
        let '(ips, err, r') := LookupIPAddr advertiseHost r in
        match err, ips with
        | None, [a] => (Some (canonical (addr_IP a)), None, (r', logger))
        | _, _ =>
            let err' :=
              match err with
              | None => Some (errorString ("advertise host '" +:+ advertiseHost +:+ "' resolved to "
                                            +:+ itoa (length ips) +:+ " IPs"))
              | Some _ => err
              end in
            calculateAdvertiseIP_bind bindHost r'
              (logger ++ [mkWarn err' "falling back to bind host"])
        end
    end
  else calculateAdvertiseIP_bind bindHost r logger.

End Advertise.

(** net.ParseIP on dotted-decimal text, after the library's parseIPv4: four
    decimal fields separated by dots, each at most 255 and without a
    leading zero. Text of any other shape is not parsed by this model. *)
Fixpoint parseIPv4_from (s : string) (val : Z) (digLen : nat) (fields : list Z) : option IP :=
  match s with
  | EmptyString =>
      match fields with
      | [a; b; c] => if Nat.eqb digLen 0 then None else Some (IPv4 a b c val)
      | _ => None
      end
  | String ch s' =>
      let n := Z.of_N (N_of_ascii ch) in
      if (48 <=? n) && (n <=? 57) then
        if Nat.eqb digLen 1 && (val =? 0) then None
        else
          let val' := val * 10 + (n - 48) in
          if val' >? 255 then None else parseIPv4_from s' val' (S digLen) fields
      else if n =? 46 then
        if Nat.eqb digLen 0 then None
        else if Nat.eqb (length fields) 3 then None
        else parseIPv4_from s' 0 0 (fields ++ [val])
      else None
  end.

Definition ParseIP_v4 (s : string) : option IP := parseIPv4_from s 0 0 [].

End Cluster.

(** ** Control: results, panics and state *)

(** How a Go call ends: it returns, or a run-time panic unwinds through it.
    [OutOfFuel] is the model's answer when a bound on the iterations of an
    unbounded [for] loop is reached. *)
Inductive outcome (A : Type) : Type :=
| Normal (a : A)
| Panic (msg : string)
| OutOfFuel.
Arguments Normal {A} a.
Arguments Panic {A} msg.
Arguments OutOfFuel {A}.

Definition M (S A : Type) : Type := S -> outcome A * S.

#[global] Instance M_ret {S} : MRet (M S) := fun A a s => (Normal a, s).

#[global] Instance M_bind {S} : MBind (M S) := fun A B f m s =>
  match m s with
  | (Normal a, s') => f a s'
  | (Panic msg, s') => (Panic msg, s')
  | (OutOfFuel, s') => (OutOfFuel, s')
  end.

Definition panic {S A} (msg : string) : M S A := fun s => (Panic msg, s).

(** [defer]: the deferred function runs when the body returns and also when
    it panics; the body's outcome stands unless the deferred call panics. *)
Definition with_defer {S A} (body : M S A) (deferred : M S unit) : M S A :=
  fun s =>
    let '(o, s1) := body s in
    match deferred s1 with
    | (Normal _, s2) => (o, s2)
    | (Panic msg, s2) => (Panic msg, s2)
    | (OutOfFuel, s2) => (OutOfFuel, s2)
    end.

Module Protocol.

(** ** Interfaces *)

Definition Proposer : Type := nat.
Definition Acceptor : Type := nat.
Definition Ctx : Type := nat.
Definition ChangeFunc : Type := list Z -> list Z.

(** Modelled from the spec: Ballot is declared elsewhere in the package; it
    is the ordered pair (counter, proposer-id) with an unsigned 64-bit counter. *)
Record Ballot : Type := mkBallot { Counter : Z; ID : Z }.

Record Tombstone : Type := mkTombstone { Ballot_of : Ballot; State : list Z }.

Definition zerokey : string := "".

(** The identity read change function, [func(x []byte) []byte { return x }]. *)
Definition identity : ChangeFunc := fun x => x.

Definition time_Second : Z := 1000000000.

(** Which case of [select { case <-time.After(d): ... case <-ctx.Done(): ... }] ran. *)
Inductive selected : Type := timer_fired | ctx_done.

(** The world the protocol code talks to: the methods of the Proposer and
    Acceptor interfaces, math/rand's source, and the select over the timer
    and the context. Each is a transformer of the world's state. *)
Class World (W : Type) : Type := {
  Propose : Proposer -> Ctx -> string -> ChangeFunc -> W -> (list Z * Ballot * option error) * W;
  AddAccepter : Proposer -> Acceptor -> W -> option error * W;
  AddPreparer : Proposer -> Acceptor -> W -> option error * W;
  RemovePreparer : Proposer -> Acceptor -> W -> option error * W;
  RemoveAccepter : Proposer -> Acceptor -> W -> option error * W;
  FullIdentityRead : Proposer -> Ctx -> string -> W -> (list Z * option error) * W;
  FastForward : Proposer -> Z -> W -> option error * W;
  RemoveIfEmpty : Acceptor -> Ctx -> string -> W -> option error * W;
  rand_source : W -> nat * W;
  select_After_Done : Z -> Ctx -> W -> selected * W;
  ctx_Err : Ctx -> W -> option error
}.

(** The interface calls the code makes. *)
Inductive event : Type :=
| Call_Propose (p : Proposer) (ctx : Ctx) (key : string) (f : ChangeFunc)
| Call_AddAccepter (p : Proposer) (target : Acceptor)
| Call_AddPreparer (p : Proposer) (target : Acceptor)
| Call_RemovePreparer (p : Proposer) (target : Acceptor)
| Call_RemoveAccepter (p : Proposer) (target : Acceptor)
| Call_FullIdentityRead (p : Proposer) (ctx : Ctx) (key : string)
| Call_FastForward (p : Proposer) (tombstone : Z)
| Call_RemoveIfEmpty (a : Acceptor) (ctx : Ctx) (key : string)
| Select_After_Done (d : Z) (ctx : Ctx).

(** The trace has one entry per call, in program order: the call and the
    error it returned. *)
Definition entry : Type := event * option error.

Record state (W : Type) : Type := mkState { world : W; trace : list entry }.
Arguments mkState {W} world trace.
Arguments world {W} s.
Arguments trace {W} s.

(** A closure over local variables: it reads the variables' cells when it
    is called, not when it is made. *)
Definition closure (W : Type) : Type := list Proposer -> M (state W) unit.

(** The locals of GrowCluster and ShrinkCluster that closures share: the
    cells of the range variables and the undo stack. *)
Record frame (W : Type) : Type :=
  mkFrame { cells : list Proposer; undo : list (closure W); st : state W }.
Arguments mkFrame {W} cells undo st.
Arguments cells {W} f.
Arguments undo {W} f.
Arguments st {W} f.

(** How [for _, proposer := range proposers] declares [proposer]: one
    variable for the whole loop, which every closure made in the loop
    shares (the language before Go 1.22, which this code base is written
    in), or a fresh variable per iteration (modules that declare go 1.22
    or later). *)
Inductive loopvar : Type := per_loop | per_iteration.

(** ** Vocabulary of the statements *)

(** The calls of a reconfiguration that all succeeded. *)
Definition succeeded (es : list event) : list entry := map (fun e => (e, None)) es.

(** The three steps of GrowCluster, with [p] the proposer picked for the read. *)
Definition grow_steps (ctx : Ctx) (target : Acceptor) (p : Proposer) (proposers : list Proposer)
  : list (list event) :=
  [ map (fun q => Call_AddAccepter q target) proposers;
    [Call_Propose p ctx zerokey identity];
    map (fun q => Call_AddPreparer q target) proposers ].

(** The three steps of ShrinkCluster. *)
Definition shrink_steps (ctx : Ctx) (target : Acceptor) (p : Proposer) (proposers : list Proposer)
  : list (list event) :=
  [ map (fun q => Call_RemovePreparer q target) proposers;
    [Call_Propose p ctx zerokey identity];
    map (fun q => Call_RemoveAccepter q target) proposers ].

(** The call that takes a configuration call back; a read is its own mirror. *)
Definition mirror (e : event) : event :=
  match e with
  | Call_AddAccepter p t => Call_RemoveAccepter p t
  | Call_AddPreparer p t => Call_RemovePreparer p t
  | Call_RemovePreparer p t => Call_AddPreparer p t
  | Call_RemoveAccepter p t => Call_AddAccepter p t
  | other => other
  end.

Definition is_Add (target : Acceptor) (e : event) : Prop :=
  match e with
  | Call_AddAccepter _ t | Call_AddPreparer _ t => t = target
  | _ => False
  end.

Definition is_Remove (target : Acceptor) (e : event) : Prop :=
  match e with
  | Call_RemoveAccepter _ t | Call_RemovePreparer _ t => t = target
  | _ => False
  end.

Definition gc_phase_a (e : event) : Prop :=
  match e with
  | Call_FullIdentityRead _ _ _ | Select_After_Done _ _ => True
  | _ => False
  end.

Section Code.

Context {W : Type} `{World W}.

Definition perform {A} (e : event) (err_of : A -> option error) (h : W -> A * W)
  : M (state W) A :=
  fun s => let '(a, w) := h (world s) in (Normal a, mkState w (trace s ++ [(e, err_of a)])).

(** A configuration call or another call whose only result is an error. *)
Definition config (e : Proposer -> Acceptor -> event)
    (h : Proposer -> Acceptor -> W -> option error * W) (p : Proposer) (t : Acceptor)
  : M (state W) (option error) :=
  perform (e p t) id (h p t).

Definition call_Propose p ctx key f := perform (Call_Propose p ctx key f) snd (Propose p ctx key f).
Definition call_AddAccepter := config Call_AddAccepter AddAccepter.
Definition call_AddPreparer := config Call_AddPreparer AddPreparer.
Definition call_RemovePreparer := config Call_RemovePreparer RemovePreparer.
Definition call_RemoveAccepter := config Call_RemoveAccepter RemoveAccepter.
Definition call_FullIdentityRead p ctx key :=
  perform (Call_FullIdentityRead p ctx key) snd (FullIdentityRead p ctx key).
Definition call_select d ctx :=
  perform (Select_After_Done d ctx) (fun _ => None) (select_After_Done d ctx).

(** rand.Intn(n): panics when n <= 0, else a value in [0, n). *)
Definition rand_Intn (n : nat) : M (state W) nat :=
  fun s =>
    if Nat.eqb n 0 then (Panic "invalid argument to Intn", s)
    else let '(r, w) := rand_source (world s) in
         (Normal (r mod n)%nat, mkState w (trace s)).

(** proposers[i] *)
Definition index {S} (l : list Proposer) (i : nat) : M S Proposer :=
  match l !! i with
  | Some p => mret p
  | None => panic "index out of range"
  end.

(** *** Locals *)

Definition lift {A} (m : M (state W) A) : M (frame W) A :=
  fun f => let '(o, s) := m (st f) in (o, mkFrame (cells f) (undo f) s).

Definition alloc (x : Proposer) : M (frame W) nat :=
  fun f => (Normal (length (cells f)), mkFrame (cells f ++ [x]) (undo f) (st f)).

Definition assign (c : nat) (x : Proposer) : M (frame W) nat :=
  fun f => (Normal c, mkFrame (<[c := x]> (cells f)) (undo f) (st f)).

Definition read (c : nat) : M (frame W) Proposer :=
  fun f => index (cells f) c f.

(** undo = append(undo, g) *)
Definition push_undo (g : closure W) : M (frame W) unit :=
  fun f => (Normal tt, mkFrame (cells f) (undo f ++ [g]) (st f)).

(** undo = []func(){} *)
Definition clear_undo : M (frame W) unit :=
  fun f => (Normal tt, mkFrame (cells f) [] (st f)).

(** g() *)
Definition invoke (g : closure W) : M (frame W) unit :=
  fun f => let '(o, s) := g (cells f) (st f) in (o, mkFrame (cells f) (undo f) s).

Fixpoint invoke_all (gs : list (closure W)) : M (frame W) unit :=
  match gs with
  | [] => mret tt
  | g :: gs' => _ ← invoke g; invoke_all gs'
  end.

(** [for i := len(undo) - 1; i >= 0; i-- { undo[i]() }] *)
Definition run_undo : M (frame W) unit :=
  fun f => invoke_all (rev (undo f)) f.

(** [for _, proposer := range l { body }], where [body] is given the cell
    of [proposer]; [Some r] from the body is a [return r] out of the
    enclosing function. [var] is the loop's variable once it exists. *)
Fixpoint range {R} (sem : loopvar) (var : option nat)
    (body : nat -> M (frame W) (option R)) (l : list Proposer) : M (frame W) (option R) :=
  match l with
  | [] => mret None
  | x :: l' =>
      c ← match sem, var with
           | per_loop, Some c => assign c x
           | _, _ => alloc x
           end;
      r ← body c;
      match r with
      | Some v => mret (Some v)
      | None => range sem (Some c) body l'
      end
  end.

(** [func() { proposer.RemoveAccepter(target) }] and its three siblings:
    the call's error is dropped. *)
Definition undo_with (method : Proposer -> Acceptor -> M (state W) (option error))
    (proposer : nat) (target : Acceptor) : closure W :=
  fun vars => p ← index vars proposer; _ ← method p target; mret tt.

(** One step of a reconfiguration loop: call [method], return the
    wrapped error or push the inverse. *)
Definition step (method inverse : Proposer -> Acceptor -> M (state W) (option error))
    (message : string) (target : Acceptor) (proposer : nat) : M (frame W) (option (option error)) :=
  p ← read proposer;
  err ← lift (method p target);
  if bool_decide (err <> None) then mret (Some (errors_Wrap err message))
  else _ ← push_undo (undo_with inverse proposer target); mret None.

(** *** GrowCluster *)

Definition GrowCluster_body (sem : loopvar) (ctx : Ctx) (target : Acceptor)
    (proposers : list Proposer) : M (frame W) (option error) :=
  r1 ← range sem None
         (step call_AddAccepter call_RemoveAccepter "during grow step 1 (add accepter)" target)
         proposers;
  match r1 with
  | Some e => mret e
  | None =>
      i ← lift (rand_Intn (length proposers));
      proposer ← index proposers i;
      '(_, _, err) ← lift (call_Propose proposer ctx zerokey identity);
      if bool_decide (err <> None) then mret (errors_Wrap err "during grow step 2 (identity read)")
      else
        r3 ← range sem None
               (step call_AddPreparer call_RemovePreparer "during grow step 3 (add preparer)" target)
               proposers;
        match r3 with
        | Some e => mret e
        | None => _ ← clear_undo; mret None
        end
  end.

Definition GrowCluster (sem : loopvar) (ctx : Ctx) (target : Acceptor)
    (proposers : list Proposer) : M (state W) (option error) :=
  fun s =>
    let '(o, f) := with_defer (GrowCluster_body sem ctx target proposers) run_undo
                     (mkFrame [] [] s) in
    (o, st f).

(** *** ShrinkCluster *)

Definition ShrinkCluster_body (sem : loopvar) (ctx : Ctx) (target : Acceptor)
    (proposers : list Proposer) : M (frame W) (option error) :=
  r1 ← range sem None
         (step call_RemovePreparer call_AddPreparer "during shrink step 1 (remove preparer)" target)
         proposers;
  match r1 with
  | Some e => mret e
  | None =>
      i ← lift (rand_Intn (length proposers));
      proposer ← index proposers i;
      '(_, _, err) ← lift (call_Propose proposer ctx zerokey identity);
      if bool_decide (err <> None) then mret (errors_Wrap err "during shrink step 2 (identity read)")
      else
        r3 ← range sem None
               (step call_RemoveAccepter call_AddAccepter "during shrink step 3 (remove accepter)" target)
               proposers;
        match r3 with
        | Some e => mret e
        | None => _ ← clear_undo; mret None
        end
  end.

Definition ShrinkCluster (sem : loopvar) (ctx : Ctx) (target : Acceptor)
    (proposers : list Proposer) : M (state W) (option error) :=
  fun s =>
    let '(o, f) := with_defer (ShrinkCluster_body sem ctx target proposers) run_undo
                     (mkFrame [] [] s) in
    (o, st f).

(** *** GarbageCollect *)

(** Phase (a): [proposer = proposers[rand.Intn(len(proposers))]] and
    [_, err = proposer.FullIdentityRead(ctx, key)]. *)
Definition identity_read (ctx : Ctx) (key : string) (proposers : list Proposer)
  : M (state W) (list Z * option error) :=
  i ← rand_Intn (length proposers);
  proposer ← index proposers i;
  call_FullIdentityRead proposer ctx key.

(** The [for { ... }] loop, unrolled at most [fuel] times. *)
Fixpoint GarbageCollect (fuel : nat) (ctx : Ctx) (key : string) (t : Tombstone)
    (proposers : list Proposer) (acceptors : list Acceptor) : M (state W) (option error) :=
  match fuel with
  | O => fun s => (OutOfFuel, s)
  | S fuel' =>
      '(_, err) ← identity_read ctx key proposers;
      if bool_decide (err = Some context_Canceled) then mret err
      else if bool_decide (err <> None) then
        which ← call_select time_Second ctx;
        match which with
        | timer_fired => GarbageCollect fuel' ctx key t proposers acceptors
        | ctx_done => fun s => (Normal (ctx_Err ctx (world s)), s)
        end
      else mret None
  end.

(** *** Broadcast helpers

    Each helper starts one goroutine per target; a goroutine makes its
    call and sends the reply on a channel buffered to the number of
    targets, so the replies arrive in the order the scheduler lets the
    goroutines finish. [arrival sched l] is that order: at each step
    the next number of [sched] picks one of the goroutines still
    running. The receive loop is modelled with each goroutine making
    its call just before its reply is received; next to the Go result a
    helper returns the goroutines whose reply it has not received when
    it returns. *)











(** *** Vocabulary of the proofs

    The types of a configuration call's event and of its method. *)
Definition config_event : Type := Proposer -> Acceptor -> event.
Definition config_method : Type := Proposer -> Acceptor -> W -> option error * W.

(** A closure of the undo stack: it calls a configuration method, whose
    event satisfies [U], on the proposer held in a live cell. *)
Definition closure_ok (U : event -> Prop) (target : Acceptor) (n : nat) (g : closure W) : Prop :=
  exists (e' : config_event) (h' : config_method) c,
    (c < n)%nat /\ (forall q, U (e' q target)) /\ g = undo_with (config e' h') c target.

(** The variable of a loop, once declared, is a live cell. *)
Definition var_ok (var : option nat) (f : frame W) : Prop :=
  match var with Some c => (c < length (cells f))%nat | None => True end.

(** The shape GrowCluster and ShrinkCluster share: a first loop of calls
    [e1], the identity read, a second loop of calls [e3]; [e1'] and [e3']
    are the calls that take them back. *)
Definition saga_body (sem : loopvar) (ctx : Ctx) (target : Acceptor) (proposers : list Proposer)
    (e1 : config_event) (h1 : config_method) (e1' : config_event) (h1' : config_method)
    (msg1 msg2 : string)
    (e3 : config_event) (h3 : config_method) (e3' : config_event) (h3' : config_method)
    (msg3 : string)
  : M (frame W) (option error) :=
  r1 ← range sem None (step (config e1 h1) (config e1' h1') msg1 target) proposers;
  match r1 with
  | Some e => mret e
  | None =>
      i ← lift (rand_Intn (length proposers));
      proposer ← index proposers i;
      '(_, _, err) ← lift (call_Propose proposer ctx zerokey identity);
      if bool_decide (err <> None) then mret (errors_Wrap err msg2)
      else
        r3 ← range sem None (step (config e3 h3) (config e3' h3') msg3 target) proposers;
        match r3 with
        | Some e => mret e
        | None => _ ← clear_undo; mret None
        end
  end.

Definition saga (sem : loopvar) (ctx : Ctx) (target : Acceptor) (proposers : list Proposer)
    (e1 : config_event) (h1 : config_method) (e1' : config_event) (h1' : config_method)
    (msg1 msg2 : string)
    (e3 : config_event) (h3 : config_method) (e3' : config_event) (h3' : config_method)
    (msg3 : string) : M (state W) (option error) :=
  fun s =>
    let '(o, f) := with_defer
                     (saga_body sem ctx target proposers e1 h1 e1' h1' msg1 msg2 e3 h3 e3' h3' msg3)
                     run_undo (mkFrame [] [] s) in
    (o, st f).

(** The forward calls of a reconfiguration that runs to its end. *)
Definition saga_steps (e1 e3 : config_event) (ctx : Ctx) (target : Acceptor) (p : Proposer) (proposers : list Proposer)
  : list event :=
  map (fun q => e1 q target) proposers ++ [Call_Propose p ctx zerokey identity]
    ++ map (fun q => e3 q target) proposers.


End Code.

(** ** In-memory proposers and acceptors *)

Inductive method : Type := m_AddAccepter | m_AddPreparer | m_RemovePreparer | m_RemoveAccepter.

#[global] Instance method_eq_dec : EqDecision method.
Proof. solve_decision. Defined.

(** Modelled from the spec: the implementations of Proposer and Acceptor are
    not in the source. A proposer holds a PrepareSet and an AcceptSet;
    adding a registered acceptor fails (already-present), removing an
    unregistered one fails (not-present); Propose, FullIdentityRead,
    FastForward and RemoveIfEmpty leave both sets alone and answer as
    scripted. [injected] lists the configuration calls made to fail, which
    then change nothing. *)
Record fake : Type := mkFake {
  PrepareSet : Proposer -> gset Acceptor;
  AcceptSet : Proposer -> gset Acceptor;
  injected : list (Proposer * method);
  propose_reply : Proposer -> list Z * Ballot * option error;
  read_replies : list (list Z * option error);
  forward_reply : Proposer -> option error;
  remove_reply : Acceptor -> option error;
  rands : list nat;
  selects : list selected;
  ctx_error : option error
}.

Definition ErrInjected : error := errorString "injected failure".
Definition ErrAlreadyPresent : error := errorString "already present".
Definition ErrNotPresent : error := errorString "not present".

Definition upd (f : Proposer -> gset Acceptor) (p : Proposer) (v : gset Acceptor)
  : Proposer -> gset Acceptor :=
  fun q => if Nat.eqb q p then v else f q.

Definition set_AcceptSet (w : fake) (f : Proposer -> gset Acceptor) : fake :=
  mkFake (PrepareSet w) f (injected w) (propose_reply w) (read_replies w)
         (forward_reply w) (remove_reply w) (rands w) (selects w) (ctx_error w).

Definition set_PrepareSet (w : fake) (f : Proposer -> gset Acceptor) : fake :=
  mkFake f (AcceptSet w) (injected w) (propose_reply w) (read_replies w)
         (forward_reply w) (remove_reply w) (rands w) (selects w) (ctx_error w).

Definition fails (w : fake) (p : Proposer) (m : method) : bool :=
  bool_decide ((p, m) ∈ injected w).

Definition fake_AddAccepter (p : Proposer) (target : Acceptor) (w : fake) : option error * fake :=
  if fails w p m_AddAccepter then (Some ErrInjected, w)
  else if bool_decide (target ∈ AcceptSet w p) then (Some ErrAlreadyPresent, w)
  else (None, set_AcceptSet w (upd (AcceptSet w) p ({[target]} ∪ AcceptSet w p))).

Definition fake_AddPreparer (p : Proposer) (target : Acceptor) (w : fake) : option error * fake :=
  if fails w p m_AddPreparer then (Some ErrInjected, w)
  else if bool_decide (target ∈ PrepareSet w p) then (Some ErrAlreadyPresent, w)
  else (None, set_PrepareSet w (upd (PrepareSet w) p ({[target]} ∪ PrepareSet w p))).

Definition fake_RemovePreparer (p : Proposer) (target : Acceptor) (w : fake) : option error * fake :=
  if fails w p m_RemovePreparer then (Some ErrInjected, w)
  else if bool_decide (target ∈ PrepareSet w p)
       then (None, set_PrepareSet w (upd (PrepareSet w) p (PrepareSet w p ∖ {[target]})))
       else (Some ErrNotPresent, w).

Definition fake_RemoveAccepter (p : Proposer) (target : Acceptor) (w : fake) : option error * fake :=
  if fails w p m_RemoveAccepter then (Some ErrInjected, w)
  else if bool_decide (target ∈ AcceptSet w p)
       then (None, set_AcceptSet w (upd (AcceptSet w) p (AcceptSet w p ∖ {[target]})))
       else (Some ErrNotPresent, w).

Definition fake_FullIdentityRead (p : Proposer) (ctx : Ctx) (key : string) (w : fake)
  : (list Z * option error) * fake :=
  (hd ([], None) (read_replies w),
   mkFake (PrepareSet w) (AcceptSet w) (injected w) (propose_reply w) (tl (read_replies w))
          (forward_reply w) (remove_reply w) (rands w) (selects w) (ctx_error w)).

Definition fake_rand (w : fake) : nat * fake :=
  (hd 0%nat (rands w),
   mkFake (PrepareSet w) (AcceptSet w) (injected w) (propose_reply w) (read_replies w)
          (forward_reply w) (remove_reply w) (tl (rands w)) (selects w) (ctx_error w)).

Definition fake_select (d : Z) (ctx : Ctx) (w : fake) : selected * fake :=
  (hd timer_fired (selects w),
   mkFake (PrepareSet w) (AcceptSet w) (injected w) (propose_reply w) (read_replies w)
          (forward_reply w) (remove_reply w) (rands w) (tl (selects w)) (ctx_error w)).

#[global] Instance fake_World : World fake := {|
  Propose := fun p _ _ _ w => (propose_reply w p, w);
  AddAccepter := fake_AddAccepter;
  AddPreparer := fake_AddPreparer;
  RemovePreparer := fake_RemovePreparer;
  RemoveAccepter := fake_RemoveAccepter;
  FullIdentityRead := fake_FullIdentityRead;
  FastForward := fun p _ w => (forward_reply w p, w);
  RemoveIfEmpty := fun a _ _ w => (remove_reply w a, w);
  rand_source := fake_rand;
  select_After_Done := fake_select;
  ctx_Err := fun _ w => ctx_error w
|}.

(** The steady state of the spec's scenarios: proposers 1, 2, 3 know the
    acceptors 1, 2, 3 in both phases; every call answers with success and
    empty state unless a field is overridden. *)
Definition steady : fake := {|
  PrepareSet := fun _ => {[1; 2; 3]}%nat;
  AcceptSet := fun _ => {[1; 2; 3]}%nat;
  injected := [];
  propose_reply := fun _ => ([], mkBallot 1 0, None);
  read_replies := [];
  forward_reply := fun _ => None;
  remove_reply := fun _ => None;
  rands := [];
  selects := [];
  ctx_error := Some context_Canceled
|}.

Definition with_injected (w : fake) (l : list (Proposer * method)) : fake :=
  mkFake (PrepareSet w) (AcceptSet w) l (propose_reply w) (read_replies w)
         (forward_reply w) (remove_reply w) (rands w) (selects w) (ctx_error w).


Definition with_reads (w : fake) (l : list (list Z * option error)) : fake :=
  mkFake (PrepareSet w) (AcceptSet w) (injected w) (propose_reply w) l
         (forward_reply w) (remove_reply w) (rands w) (selects w) (ctx_error w).

Definition with_selects (w : fake) (l : list selected) : fake :=
  mkFake (PrepareSet w) (AcceptSet w) (injected w) (propose_reply w) (read_replies w)
         (forward_reply w) (remove_reply w) (rands w) l (ctx_error w).

Definition start (w : fake) : state fake := mkState w [].

(** *** Undoing against the in-memory proposers

    Two worlds with the same configuration: the same sets at every
    proposer, the same calls made to fail. *)
Definition same_config (w w' : fake) : Prop :=
(forall p, AcceptSet w p = AcceptSet w' p)
/\ (forall p, PrepareSet w p = PrepareSet w' p)
/\ injected w = injected w'.

(** The two phases a proposer keeps a set for. *)
Inductive phase : Type := accept_phase | prepare_phase.

Definition add_to (k : phase) : @config_method fake :=
match k with accept_phase => fake_AddAccepter | prepare_phase => fake_AddPreparer end.

Definition remove_from (k : phase) : @config_method fake :=
match k with accept_phase => fake_RemoveAccepter | prepare_phase => fake_RemovePreparer end.

Definition add_event (k : phase) : config_event :=
match k with accept_phase => Call_AddAccepter | prepare_phase => Call_AddPreparer end.

Definition remove_event (k : phase) : config_event :=
match k with accept_phase => Call_RemoveAccepter | prepare_phase => Call_RemovePreparer end.

(** An undo stack that takes the world [w] back to the configuration of
    [w0]: each closure removes, from the proposer in its own cell, what
    the matching call added. *)
Inductive undoable (target : Acceptor) (vars : list Proposer) (w0 : fake)
  : list (closure fake) -> fake -> Prop :=
| undoable_nil w : same_config w0 w -> undoable target vars w0 [] w
| undoable_snoc gs c x k wprev wnext w :
    undoable target vars w0 gs wprev ->
    vars !! c = Some x ->
    add_to k x target wprev = (None, wnext) ->
    same_config wnext w ->
    undoable target vars w0 (gs ++ [undo_with (config (remove_event k) (remove_from k)) c target]) w.

(** No Remove call is made to fail. *)
Definition no_remove_faults (w : fake) : Prop :=
forall p, fails w p m_RemoveAccepter = false /\ fails w p m_RemovePreparer = false.

(** *** Scenarios *)

Definition tomb : Tombstone := mkTombstone (mkBallot 1 0) [].






(** The first identity read finds the key not empty, the next succeeds. *)
Definition flaky : fake := with_reads steady [([7], Some ErrNotEmpty)].

End Protocol.

Import Protocol.

(** * Properties *)

(** ** calculateAdvertiseIP *)

Section AdvertiseFacts.

Import Cluster.

Variable ParseIP : string -> option IP.
Variable R : Type.
Variable LookupIPAddr : string -> R -> (list IPAddr * option error) * R.

Lemma To4_length ip ip4 : To4 ip = Some ip4 -> length ip4 = 4%nat.
Proof.
  unfold To4. destruct (Nat.eqb (length ip) 4) eqn:E4.
  - intros [= <-]. by apply Nat.eqb_eq.
  - destruct (_ && _) eqn:E16; [|done]. intros [= <-].
    repeat (apply andb_prop in E16 as [E16 ?]). apply Nat.eqb_eq in E16.
    rewrite length_firstn, length_skipn. lia.
Qed.

Lemma canonical_IPv4 a b c d : canonical (IPv4 a b c d) = [a; b; c; d].
Proof. reflexivity. Qed.

(** C8. A non-empty advertise host that parses as an IP is returned
    without error, whatever the bind host: in its 4-byte form when To4
    gives one, unchanged otherwise. No lookup is made and nothing is
    logged. *)
Theorem calculateAdvertiseIP_advertise_ip
    (GetPrivateIP : string * option error) (bindHost advertiseHost : string)
    (r : R) (logger : list logline) (ip : IP) :
  advertiseHost <> "" ->
  ParseIP advertiseHost = Some ip ->
  calculateAdvertiseIP ParseIP R LookupIPAddr GetPrivateIP bindHost advertiseHost r logger
    = (Some (canonical ip), None, (r, logger))
  /\ (forall ip4, To4 ip = Some ip4 -> canonical ip = ip4 /\ length ip4 = 4%nat)
  /\ (To4 ip = None -> canonical ip = ip).
Proof.
  intros Hne Hparse. unfold calculateAdvertiseIP.
  rewrite bool_decide_eq_true_2 by done. rewrite Hparse. split; [done|].
  unfold canonical. split.
  - intros ip4 H4. rewrite H4. eauto using To4_length.
  - by intros ->.
Qed.

(** An empty advertise host goes straight to the bind-host part; one that
    neither parses nor resolves to a single address goes there too, after
    a warning is logged. *)
Lemma calculateAdvertiseIP_falls_back
    (GetPrivateIP : string * option error) (bindHost advertiseHost : string)
    (r : R) (logger : list logline) :
  advertiseHost = ""
  \/ (ParseIP advertiseHost = None
      /\ forall a, LookupIPAddr advertiseHost r <> ([a], None, (LookupIPAddr advertiseHost r).2)) ->
  exists r' logger',
    calculateAdvertiseIP ParseIP R LookupIPAddr GetPrivateIP bindHost advertiseHost r logger
    = calculateAdvertiseIP_bind ParseIP R LookupIPAddr GetPrivateIP bindHost r' logger'.
Proof.
  intros [->|[Hparse Hlookup]]; [by exists r, logger|].
  unfold calculateAdvertiseIP. case_bool_decide; [|by exists r, logger].
  rewrite Hparse. destruct (LookupIPAddr advertiseHost r) as [[ips err] r'] eqn:E.
  destruct err as [e|]; [by eexists _, _|].
  destruct ips as [|a [|b ips]]; [by eexists _, _| |by eexists _, _].
  by destruct (Hlookup a).
Qed.

(** The bind-host part for 0.0.0.0: a private IP that sockaddr reports
    and that parses is returned, and an error of sockaddr comes back
    wrapped; an empty answer without error gives a nil IP and a nil
    error. *)
Lemma calculateAdvertiseIP_bind_private
    (privateIP : string) (err : option error) (r : R) (logger : list logline) :
  calculateAdvertiseIP_bind ParseIP R LookupIPAddr (privateIP, err) "0.0.0.0" r logger
  = match err with
    | Some e =>
        (None, Some (withMessage e "failed to deduce private IP from all-zeroes bind address"),
         (r, logger))
    | None =>
        if String.eqb privateIP "" then (None, None, (r, logger))
        else match ParseIP privateIP with
             | Some ip => (Some ip, None, (r, logger))
             | None => (None, Some (errorString ("failed to parse private IP '" +:+ privateIP +:+ "'")),
                        (r, logger))
             end
    end.
Proof. unfold calculateAdvertiseIP_bind. by destruct err. Qed.

(** C7. When sockaddr finds no private IP (the empty string and no
    error), calculateAdvertiseIP with bind host 0.0.0.0 and an empty
    advertise host returns a nil IP and a nil error. *)
Theorem calculateAdvertiseIP_no_private_ip (r : R) (logger : list logline) :
  calculateAdvertiseIP ParseIP R LookupIPAddr ("", None) "0.0.0.0" "" r logger
    = (None, None, (r, logger)).
Proof. reflexivity. Qed.

End AdvertiseFacts.

(** The spec's example: bind host 0.0.0.0, advertise host 1.2.3.4. *)
Lemma calculateAdvertiseIP_advertise_ip_witness :
  Cluster.calculateAdvertiseIP Cluster.ParseIP_v4 unit (fun _ r => ([], None, r)) ("", None)
    "0.0.0.0" "1.2.3.4" tt []
  = (Some [1; 2; 3; 4], None, (tt, [])).
Proof.
  exact (proj1 (calculateAdvertiseIP_advertise_ip Cluster.ParseIP_v4 unit
                  (fun _ r => ([], None, r)) ("", None) "0.0.0.0" "1.2.3.4" tt []
                  (Cluster.IPv4 1 2 3 4) ltac:(discriminate) eq_refl)).
Defined.

(** ** Reconfiguration and garbage collection *)

Section ProtocolFacts.

Context {W : Type} `{World W}.

Implicit Types (e : config_event) (h : @config_method W) (f : frame W) (g : closure W)
               (U : event -> Prop).

Lemma bind_Normal {S A B} (m : M S A) (k : A -> M S B) s a s' :
  m s = (Normal a, s') -> (a ← m; k a) s = k a s'.
Proof. intros E. unfold mbind, M_bind. by rewrite E. Qed.

Lemma bind_Panic {S A B} (m : M S A) (k : A -> M S B) s msg s' :
  m s = (Panic msg, s') -> (a ← m; k a) s = (Panic msg, s').
Proof. intros E. unfold mbind, M_bind. by rewrite E. Qed.

Lemma rand_Intn_empty (s : state W) : rand_Intn 0 s = (Panic "invalid argument to Intn", s).
Proof. reflexivity. Qed.

Lemma rand_Intn_pos n (s : state W) :
  (0 < n)%nat ->
  exists i, (i < n)%nat /\
    rand_Intn n s = (Normal i, mkState (rand_source (world s)).2 (trace s)).
Proof.
  intros Hn. unfold rand_Intn. destruct n as [|n]; [lia|]. simpl Nat.eqb. cbv iota.
  destruct (rand_source (world s)) as [r w] eqn:E. exists (r mod S n)%nat.
  split; [apply Nat.mod_upper_bound; lia | done].
Qed.

(** C10. With an empty proposers list GrowCluster, ShrinkCluster and
    GarbageCollect do not return: rand.Intn(0) panics before any call
    is made, and the panic leaves the function. *)
Theorem empty_proposers_panic (sem : loopvar) (ctx : Ctx) (target : Acceptor) (key : string)
    (t : Tombstone) (acceptors : list Acceptor) (fuel : nat) (s : state W) :
  GrowCluster sem ctx target [] s = (Panic "invalid argument to Intn", s)
  /\ ShrinkCluster sem ctx target [] s = (Panic "invalid argument to Intn", s)
  /\ GarbageCollect (S fuel) ctx key t [] acceptors s = (Panic "invalid argument to Intn", s).
Proof. repeat split. Qed.


Lemma lift_Normal {A} (m : M (state W) A) f a s' :
  m (st f) = (Normal a, s') -> lift m f = (Normal a, mkFrame (cells f) (undo f) s').
Proof. intros E. unfold lift. by rewrite E. Qed.

Lemma index_Some {S} (l : list Proposer) i p (x : S) :
  l !! i = Some p -> index l i x = (Normal p, x).
Proof. intros E. unfold index. by rewrite E. Qed.

(** *** Closures and the undo stack *)

Lemma closure_ok_mono U target n n' g :
  (n <= n')%nat -> closure_ok U target n g -> closure_ok U target n' g.
Proof. intros Hle (e' & h' & c & Hc & HU & ->). exists e', h', c. split; [lia|done]. Qed.

Lemma invoke_ok U target g f :
  closure_ok U target (length (cells f)) g ->
  exists ev r w,
    U ev /\
    invoke g f = (Normal tt, mkFrame (cells f) (undo f)
                               (mkState w (trace (st f) ++ [(ev, r)]))).
Proof.
  intros (e' & h' & c & Hc & HU & ->).
  destruct (lookup_lt_is_Some_2 (cells f) c Hc) as [q Hq].
  destruct (h' q target (world (st f))) as [r w] eqn:Eh.
  exists (e' q target), r, w. split; [done|].
  unfold invoke, undo_with, index, config, perform, mbind, M_bind, mret, M_ret.
  rewrite Hq. simpl. by rewrite Eh.
Qed.

Lemma invoke_all_ok U target gs : forall f,
  Forall (closure_ok U target (length (cells f))) gs ->
  exists evs w,
    Forall (fun en => U en.1) evs /\ length evs = length gs /\
    invoke_all gs f = (Normal tt, mkFrame (cells f) (undo f)
                                    (mkState w (trace (st f) ++ evs))).
Proof.
  induction gs as [|g gs IH]; intros f Hok.
  - exists [], (world (st f)). rewrite app_nil_r. repeat split; [constructor|].
    destruct f as [? ? []]. reflexivity.
  - inversion Hok as [|? ? Hg Hgs]; subst.
    destruct (invoke_ok _ _ _ _ Hg) as (ev & r & w & HU & Einv).
    set (f1 := mkFrame (cells f) (undo f) (mkState w (trace (st f) ++ [(ev, r)]))) in *.
    destruct (IH f1 Hgs) as (evs & w' & HUs & Hlen & Eall).
    exists ((ev, r) :: evs), w'. split; [by constructor|]. split; [simpl; lia|].
    simpl. rewrite (bind_Normal _ _ _ _ _ Einv), Eall. simpl.
    by rewrite <- app_assoc.
Qed.


(** *** One reconfiguration loop *)

Lemma step_spec e h (e' : config_event) (h' : @config_method W) msg target c x f :
  cells f !! c = Some x ->
  step (config e h) (config e' h') msg target c f =
    let '(err, w) := h x target (world (st f)) in
    let st' := mkState w (trace (st f) ++ [(e x target, err)]) in
    match err with
    | Some er => (Normal (Some (Some (withMessage er msg))), mkFrame (cells f) (undo f) st')
    | None => (Normal None,
               mkFrame (cells f) (undo f ++ [undo_with (config e' h') c target]) st')
    end.
Proof.
  intros Hc. unfold step, read, index, lift, config, perform, push_undo, mbind, M_bind, mret, M_ret.
  rewrite Hc. simpl. destruct (h x target (world (st f))) as [[er|] w]; reflexivity.
Qed.

Lemma declare_spec sem var x f :
  var_ok var f ->
  exists c f1,
    match sem, var with
    | per_loop, Some c => assign c x
    | _, _ => alloc x
    end f = (Normal c, f1)
    /\ cells f1 !! c = Some x /\ (length (cells f) <= length (cells f1))%nat
    /\ undo f1 = undo f /\ st f1 = st f.
Proof.
  intros Hv. destruct sem, var as [c|]; simpl in Hv.
  - exists c, (mkFrame (<[c:=x]> (cells f)) (undo f) (st f)). simpl.
    rewrite length_insert. split; [done|]. split; [by apply list_lookup_insert_eq|done].
  - exists (length (cells f)), (mkFrame (cells f ++ [x]) (undo f) (st f)). simpl.
    rewrite length_app. simpl. split; [done|].
    split; [by rewrite lookup_app_r, Nat.sub_diag by lia|]. split; [lia|done].
  - exists (length (cells f)), (mkFrame (cells f ++ [x]) (undo f) (st f)). simpl.
    rewrite length_app. simpl. split; [done|].
    split; [by rewrite lookup_app_r, Nat.sub_diag by lia|]. split; [lia|done].
  - exists (length (cells f)), (mkFrame (cells f ++ [x]) (undo f) (st f)). simpl.
    rewrite length_app. simpl. split; [done|].
    split; [by rewrite lookup_app_r, Nat.sub_diag by lia|]. split; [lia|done].
Qed.

(** A loop either runs over the whole list with every call succeeding, or
    stops at the first call that fails and returns its error wrapped. *)
Lemma range_step_spec U e h (e' : config_event) (h' : @config_method W) msg target sem
    (HU : forall q, U (e' q target)) : forall l var f,
  var_ok var f ->
  Forall (closure_ok U target (length (cells f))) (undo f) ->
  exists r f',
    range sem var (step (config e h) (config e' h') msg target) l f = (Normal r, f')
    /\ Forall (closure_ok U target (length (cells f'))) (undo f')
    /\ ((r = None
         /\ trace (st f') = trace (st f) ++ succeeded (map (fun q => e q target) l))
        \/ (exists pre x post err,
              l = pre ++ x :: post
              /\ r = Some (Some (withMessage err msg))
              /\ trace (st f') = trace (st f) ++ succeeded (map (fun q => e q target) pre)
                                   ++ [(e x target, Some err)])).
Proof.
  induction l as [|x l IH]; intros var f Hv Hu.
  - exists None, f. split; [done|]. split; [done|]. left. simpl. by rewrite app_nil_r.
  - destruct (declare_spec sem var x f Hv) as (c & f1 & Edecl & Hc & Hlen & Hundo & Hst).
    simpl. rewrite (bind_Normal _ _ _ _ _ Edecl).
    pose proof (step_spec e h e' h' msg target c x f1 Hc) as Estep.
    rewrite Hst, Hundo in Estep.
    destruct (h x target (world (st f))) as [[er|] w] eqn:Eh; simpl in Estep.
    + rewrite (bind_Normal _ _ _ _ _ Estep). eexists _, _. split; [reflexivity|].
      simpl. split; [eapply Forall_impl; [exact Hu|]; intros g; by apply closure_ok_mono|].
      right. exists [], x, l, er. simpl. done.
    + rewrite (bind_Normal _ _ _ _ _ Estep).
      match goal with |- context [range _ _ _ l ?f2] => set (f2' := f2) end.
      assert (Hv2 : var_ok (Some c) f2') by (simpl; by eapply lookup_lt_Some).
      assert (Hu2 : Forall (closure_ok U target (length (cells f2'))) (undo f2')).
      { simpl. apply Forall_app. split.
        - eapply Forall_impl; [exact Hu|]. intros g; by apply closure_ok_mono.
        - constructor; [|constructor]. exists e', h', c.
          split; [by eapply lookup_lt_Some|done]. }
      destruct (IH (Some c) f2' Hv2 Hu2) as (r & f' & Erange & Hu' & Hcases).
      exists r, f'. split; [exact Erange|]. split; [exact Hu'|].
      destruct Hcases as [[-> Htr]|(pre & y & post & err & -> & -> & Htr)].
      * left. split; [done|]. rewrite Htr. simpl. by rewrite <- app_assoc.
      * right. exists (x :: pre), y, post, err. split; [done|]. split; [done|].
        rewrite Htr. simpl. by rewrite <- !app_assoc.
Qed.


(** *** The two reconfigurations *)

Lemma GrowCluster_saga sem ctx target proposers :
  GrowCluster sem ctx target proposers =
  saga sem ctx target proposers
    Call_AddAccepter AddAccepter Call_RemoveAccepter RemoveAccepter
    "during grow step 1 (add accepter)" "during grow step 2 (identity read)"
    Call_AddPreparer AddPreparer Call_RemovePreparer RemovePreparer
    "during grow step 3 (add preparer)".
Proof. reflexivity. Qed.

Lemma ShrinkCluster_saga sem ctx target proposers :
  ShrinkCluster sem ctx target proposers =
  saga sem ctx target proposers
    Call_RemovePreparer RemovePreparer Call_AddPreparer AddPreparer
    "during shrink step 1 (remove preparer)" "during shrink step 2 (identity read)"
    Call_RemoveAccepter RemoveAccepter Call_AddAccepter AddAccepter
    "during shrink step 3 (remove accepter)".
Proof. reflexivity. Qed.

(** The deferred function at the end of a body that returned [r]. *)
Lemma deferred_undo U target {A} (body : M (frame W) A) f0 r f1 :
  body f0 = (Normal r, f1) ->
  Forall (closure_ok U target (length (cells f1))) (undo f1) ->
  exists undone f2,
    with_defer body run_undo f0 = (Normal r, f2)
    /\ trace (st f2) = trace (st f1) ++ undone
    /\ Forall (fun en => U en.1) undone
    /\ length undone = length (undo f1).
Proof.
  intros Ebody Hu. unfold with_defer, run_undo. rewrite Ebody.
  apply Forall_rev in Hu.
  destruct (invoke_all_ok _ _ _ _ Hu) as (evs & w & HUs & Hlen & Eall).
  rewrite Eall. eexists _, _. split; [reflexivity|]. simpl.
  rewrite length_rev in Hlen. done.
Qed.

Lemma saga_spec U sem ctx target proposers e1 h1
    (e1' : config_event) (h1' : @config_method W)
    msg1 msg2 e3 h3
    (e3' : config_event) (h3' : @config_method W)
    msg3 (s : state W) :
  (forall q, U (e1' q target)) -> (forall q, U (e3' q target)) ->
  proposers <> [] ->
  exists r s' p fwd undone,
    saga sem ctx target proposers e1 h1 e1' h1' msg1 msg2 e3 h3 e3' h3' msg3 s = (Normal r, s')
    /\ p ∈ proposers
    /\ trace s' = trace s ++ fwd ++ undone
    /\ Forall (fun en => U en.1) undone
    /\ ((r = None /\ fwd = succeeded (saga_steps e1 e3 ctx target p proposers) /\ undone = [])
        \/ (exists done c rest err msg,
              saga_steps e1 e3 ctx target p proposers = done ++ c :: rest
              /\ fwd = succeeded done ++ [(c, Some err)]
              /\ r = Some (withMessage err msg)
              /\ msg ∈ [msg1; msg2; msg3])).
Proof.
  intros HU1 HU3 Hne. unfold saga.
  set (body := saga_body _ _ _ _ _ _ _ _ _ _ _ _ _ _ _).
  set (f0 := mkFrame [] [] s).
  assert (Hhd : exists p0, p0 ∈ proposers).
  { destruct proposers as [|p0 ?]; [done|]. exists p0. by left. }
  destruct Hhd as [p0 Hp0].
  destruct (range_step_spec U e1 h1 e1' h1' msg1 target sem HU1 proposers None f0 I
              ltac:(constructor)) as (r1 & f1 & E1 & Hu1 & Hc1).
  destruct Hc1 as [[-> Htr1]|(pre & x & post & err & Hl & -> & Htr1)].
  2:{ (* step 1 failed *)
    assert (Ebody : body f0 = (Normal (Some (withMessage err msg1)), f1)).
    { unfold body, saga_body. by rewrite (bind_Normal _ _ _ _ _ E1). }
    destruct (deferred_undo U target body f0 _ f1 Ebody Hu1) as (undone & f2 & -> & Htr2 & HUu & _).
    exists (Some (withMessage err msg1)), (st f2), p0,
           (succeeded (map (fun q => e1 q target) pre) ++ [(e1 x target, Some err)]), undone.
    split; [done|]. split; [done|]. split; [by rewrite Htr2, Htr1, <- !app_assoc|].
    split; [done|]. right.
    exists (map (fun q => e1 q target) pre), (e1 x target),
           (map (fun q => e1 q target) post ++ [Call_Propose p0 ctx zerokey identity]
              ++ map (fun q => e3 q target) proposers), err, msg1.
    split.
    { unfold saga_steps.
      replace (map (fun q => e1 q target) proposers)
        with (map (fun q => e1 q target) pre ++ e1 x target :: map (fun q => e1 q target) post)
        by (by rewrite Hl, map_app).
      by rewrite <- !app_assoc. }
    split; [done|]. split; [done|]. by left. }
  (* step 1 done: the read *)
  destruct (rand_Intn_pos (length proposers) (st f1)) as (i & Hi & Erand).
  { destruct proposers; [done|simpl; lia]. }
  destruct (lookup_lt_is_Some_2 proposers i Hi) as [p Hp].
  assert (Hpin : p ∈ proposers) by (by eapply list_elem_of_lookup_2).
  set (s1 := mkState (rand_source (world (st f1))).2 (trace (st f1))) in *.
  destruct (Propose p ctx zerokey identity (world s1)) as [[[v b] err] w2] eqn:Eprop.
  set (s2 := mkState w2 (trace s1 ++ [(Call_Propose p ctx zerokey identity, err)])).
  set (f2 := mkFrame (cells f1) (undo f1) s2).
  assert (Ehead : body f0 =
            (if bool_decide (err <> None) then mret (errors_Wrap err msg2)
             else (r3 ← range sem None (step (config e3 h3) (config e3' h3') msg3 target) proposers;
                   match r3 with
                   | Some e => mret e
                   | None => _ ← clear_undo; mret None
                   end)) f2).
  { unfold body, saga_body. rewrite (bind_Normal _ _ _ _ _ E1).
    rewrite (bind_Normal _ _ _ _ _ (lift_Normal _ _ _ _ Erand)).
    rewrite (bind_Normal _ _ _ _ _ (index_Some _ _ _ _ Hp)).
    assert (Ecall : call_Propose p ctx zerokey identity s1 = (Normal (v, b, err), s2)).
    { unfold call_Propose, perform. by rewrite Eprop. }
    rewrite (bind_Normal _ _ _ _ _ (lift_Normal _ (mkFrame (cells f1) (undo f1) s1) _ _ Ecall)).
    reflexivity. }
  destruct err as [er|].
  { (* the read failed *)
    rewrite bool_decide_eq_true_2 in Ehead by done.
    destruct (deferred_undo U target body f0 _ f2 Ehead Hu1) as (undone & f3 & -> & Htr3 & HUu & _).
    exists (Some (withMessage er msg2)), (st f3), p,
           (succeeded (map (fun q => e1 q target) proposers)
              ++ [(Call_Propose p ctx zerokey identity, Some er)]), undone.
    split; [done|]. split; [done|].
    split; [rewrite Htr3; simpl; by rewrite Htr1, <- !app_assoc|].
    split; [done|]. right.
    exists (map (fun q => e1 q target) proposers), (Call_Propose p ctx zerokey identity),
           (map (fun q => e3 q target) proposers), er, msg2.
    split; [done|]. split; [done|]. split; [done|]. right; by left. }
  rewrite bool_decide_eq_false_2 in Ehead by (intros ?; done).
  destruct (range_step_spec U e3 h3 e3' h3' msg3 target sem HU3 proposers None f2 I Hu1)
    as (r3 & f3 & E3 & Hu3 & Hc3).
  destruct Hc3 as [[-> Htr3]|(pre & x & post & err & Hl & -> & Htr3)].
  - (* success *)
    set (f4 := mkFrame (cells f3) [] (st f3)).
    assert (Ebody : body f0 = (Normal None, f4)).
    { rewrite Ehead. by rewrite (bind_Normal _ _ _ _ _ E3). }
    destruct (deferred_undo U target body f0 _ f4 Ebody ltac:(constructor))
      as (undone & f5 & -> & Htr5 & HUu & Hlen).
    destruct undone; [|done].
    exists None, (st f5), p, (succeeded (saga_steps e1 e3 ctx target p proposers)), [].
    split; [done|]. split; [done|].
    split.
    { rewrite Htr5. simpl. rewrite Htr3. simpl. rewrite Htr1.
      unfold saga_steps, succeeded. rewrite !map_app, !app_nil_r. simpl. by rewrite <- !app_assoc. }
    split; [done|]. by left.
  - (* step 3 failed *)
    assert (Ebody : body f0 = (Normal (Some (withMessage err msg3)), f3)).
    { rewrite Ehead. by rewrite (bind_Normal _ _ _ _ _ E3). }
    destruct (deferred_undo U target body f0 _ f3 Ebody Hu3) as (undone & f4 & -> & Htr4 & HUu & _).
    exists (Some (withMessage err msg3)), (st f4), p,
           (succeeded (map (fun q => e1 q target) proposers ++ [Call_Propose p ctx zerokey identity]
                         ++ map (fun q => e3 q target) pre) ++ [(e3 x target, Some err)]), undone.
    split; [done|]. split; [done|].
    split.
    { rewrite Htr4, Htr3. simpl. rewrite Htr1. unfold succeeded.
      rewrite !map_app. simpl. by rewrite <- !app_assoc. }
    split; [done|]. right.
    exists (map (fun q => e1 q target) proposers ++ [Call_Propose p ctx zerokey identity]
              ++ map (fun q => e3 q target) pre), (e3 x target),
           (map (fun q => e3 q target) post), err, msg3.
    split.
    { unfold saga_steps.
      replace (map (fun q => e3 q target) proposers)
        with (map (fun q => e3 q target) pre ++ e3 x target :: map (fun q => e3 q target) post)
        by (by rewrite Hl, map_app).
      by rewrite <- !app_assoc. }
    split; [done|]. split; [done|]. right; right; by left.
Qed.


(** C4. A GrowCluster that returns nil has made exactly these calls, in
    this order and each without error: AddAccepter(target) on every
    proposer in list order, one Propose of the identity function on the
    zerokey to one proposer of the list, AddPreparer(target) on every
    proposer in list order. None of them is a Remove call. *)
Theorem GrowCluster_success_sequence (sem : loopvar) (ctx : Ctx) (target : Acceptor)
    (proposers : list Proposer) (s s' : state W) :
  GrowCluster sem ctx target proposers s = (Normal None, s') ->
  exists p,
    p ∈ proposers
    /\ trace s' = trace s ++ succeeded (concat (grow_steps ctx target p proposers))
    /\ Forall (fun c => ~ is_Remove target c) (concat (grow_steps ctx target p proposers)).
Proof.
  intros Hrun. destruct proposers as [|p0 ps] eqn:Eps; [discriminate|]. rewrite <- Eps in *.
  rewrite GrowCluster_saga in Hrun.
  destruct (saga_spec (is_Remove target) sem ctx target proposers
              Call_AddAccepter AddAccepter Call_RemoveAccepter RemoveAccepter
              "during grow step 1 (add accepter)" "during grow step 2 (identity read)"
              Call_AddPreparer AddPreparer Call_RemovePreparer RemovePreparer
              "during grow step 3 (add preparer)" s)
    as (r & s1 & p & fwd & undone & Erun & Hp & Htr & _ & Hcases);
    [done | done | by rewrite Eps |].
  rewrite Erun in Hrun. injection Hrun as -> ->.
  destruct Hcases as [(_ & -> & ->)|(? & ? & ? & ? & ? & _ & _ & [=] & _)].
  exists p. split; [done|]. split.
  - rewrite Htr, app_nil_r. unfold grow_steps, saga_steps. simpl. by rewrite app_nil_r.
  - unfold grow_steps. simpl. rewrite app_nil_r. rewrite !Forall_app. repeat split.
    + apply Forall_map, Forall_true. by intros q [].
    + constructor; [by intros []|]. apply Forall_map, Forall_true. by intros q [].
Qed.

Lemma shrink_mirrors_grow ctx target p proposers :
  shrink_steps ctx target p proposers = map (map mirror) (rev (grow_steps ctx target p proposers)).
Proof. unfold shrink_steps, grow_steps. simpl. by rewrite !map_map. Qed.

(** C5. ShrinkCluster on a non-empty list returns, and its steps are
    GrowCluster's in reverse order, each call replaced by its mirror:
    RemovePreparer(target) on every proposer, the identity read on the
    zerokey to one proposer of the list, RemoveAccepter(target) on every
    proposer. Either all of them succeed and nil is returned, or the
    calls made are those up to the first one that fails, whose error is
    returned wrapped; what follows in the trace are the Add calls of
    the undo stack only. *)
Theorem ShrinkCluster_mirror (sem : loopvar) (ctx : Ctx) (target : Acceptor)
    (proposers : list Proposer) (s : state W) :
  proposers <> [] ->
  exists r s' p fwd undone,
    ShrinkCluster sem ctx target proposers s = (Normal r, s')
    /\ p ∈ proposers
    /\ shrink_steps ctx target p proposers
       = map (map mirror) (rev (grow_steps ctx target p proposers))
    /\ trace s' = trace s ++ fwd ++ undone
    /\ Forall (fun en => is_Add target en.1) undone
    /\ ((r = None /\ fwd = succeeded (concat (shrink_steps ctx target p proposers))
         /\ undone = [])
        \/ (exists done c rest err msg,
              concat (shrink_steps ctx target p proposers) = done ++ c :: rest
              /\ fwd = succeeded done ++ [(c, Some err)]
              /\ r = Some (withMessage err msg))).
Proof.
  intros Hne. rewrite ShrinkCluster_saga.
  destruct (saga_spec (is_Add target) sem ctx target proposers
              Call_RemovePreparer RemovePreparer Call_AddPreparer AddPreparer
              "during shrink step 1 (remove preparer)" "during shrink step 2 (identity read)"
              Call_RemoveAccepter RemoveAccepter Call_AddAccepter AddAccepter
              "during shrink step 3 (remove accepter)" s)
    as (r & s1 & p & fwd & undone & Erun & Hp & Htr & HU & Hcases); [done | done | done |].
  assert (Esteps : concat (shrink_steps ctx target p proposers)
                   = saga_steps Call_RemovePreparer Call_RemoveAccepter ctx target p proposers).
  { unfold shrink_steps, saga_steps. simpl. by rewrite app_nil_r. }
  exists r, s1, p, fwd, undone. split; [done|]. split; [done|].
  split; [apply shrink_mirrors_grow|]. split; [done|]. split; [done|]. rewrite Esteps.
  destruct Hcases as [?|(done & c & rest & err & msg & ? & ? & ? & _)]; [by left|].
  right. by exists done, c, rest, err, msg.
Qed.


(** *** GarbageCollect *)

Lemma identity_read_cases ctx key proposers (s : state W) :
  (exists msg s', identity_read ctx key proposers s = (Panic msg, s') /\ trace s' = trace s)
  \/ (exists p v err w,
        p ∈ proposers
        /\ identity_read ctx key proposers s
           = (Normal (v, err), mkState w (trace s ++ [(Call_FullIdentityRead p ctx key, err)]))).
Proof.
  unfold identity_read. destruct proposers as [|p0 ps] eqn:Eps.
  { left. by exists "invalid argument to Intn", s. }
  rewrite <- Eps. destruct (rand_Intn_pos (length proposers) s) as (i & Hi & Erand).
  { rewrite Eps. simpl. lia. }
  destruct (lookup_lt_is_Some_2 proposers i Hi) as [p Hp].
  rewrite (bind_Normal _ _ _ _ _ Erand), (bind_Normal _ _ _ _ _ (index_Some _ _ _ _ Hp)).
  right. unfold call_FullIdentityRead, perform. simpl.
  destruct (FullIdentityRead p ctx key _) as [[v err] w].
  exists p, v, err, w. split; [by eapply list_elem_of_lookup_2|done].
Qed.

(** Whatever it returns, GarbageCollect only ever reads the identity and
    waits: no other call enters the trace. *)
Lemma GarbageCollect_only_phase_a ctx key t proposers acceptors : forall fuel (s : state W),
  exists added,
    trace (GarbageCollect fuel ctx key t proposers acceptors s).2 = trace s ++ added
    /\ Forall (fun en => gc_phase_a en.1) added.
Proof.
  induction fuel as [|fuel IH]; intros s.
  - exists []. by rewrite app_nil_r.
  - simpl. destruct (identity_read_cases ctx key proposers s)
      as [(msg & s' & E & Htr)|(p & v & err & w & _ & E)].
    + rewrite (bind_Panic _ _ _ _ _ E). exists []. by rewrite app_nil_r.
    + rewrite (bind_Normal _ _ _ _ _ E).
      set (s1 := mkState w _).
      assert (Hone : Forall (fun en : entry => gc_phase_a en.1)
                       [(Call_FullIdentityRead p ctx key, err)]) by (by repeat constructor).
      case_bool_decide; [by eexists|].
      case_bool_decide; [|by eexists].
      unfold call_select, perform, mbind, M_bind.
      destruct (select_After_Done time_Second ctx (world s1)) as [[] w2].
      * match goal with |- context [GarbageCollect fuel _ _ _ _ _ ?s2] =>
          destruct (IH s2) as (added & -> & Hadd) end.
        simpl. eexists. rewrite <- !app_assoc. split; [reflexivity|].
        apply Forall_app. split; [done|]. constructor; [done|]. exact Hadd.
      * simpl. eexists. rewrite <- !app_assoc. split; [reflexivity|].
        by repeat constructor.
Qed.

(** C6. One round of GarbageCollect whose identity read fails. If the
    error is context.Canceled it is returned at once, with no further
    call. Otherwise the select waits for time.After(time.Second) or
    ctx.Done(): when the timer fires the whole procedure runs again
    from the state the wait left; when the context is done ctx.Err() is
    returned, with no further call. *)
Theorem GarbageCollect_retry (fuel : nat) (ctx : Ctx) (key : string) (t : Tombstone)
    (proposers : list Proposer) (acceptors : list Acceptor)
    (s s1 : state W) (v : list Z) (err : option error) :
  identity_read ctx key proposers s = (Normal (v, err), s1) ->
  err <> None ->
  let waited := mkState (select_After_Done time_Second ctx (world s1)).2
                        (trace s1 ++ [(Select_After_Done time_Second ctx, None)]) in
  GarbageCollect (S fuel) ctx key t proposers acceptors s =
    if bool_decide (err = Some context_Canceled) then (Normal (Some context_Canceled), s1)
    else match (select_After_Done time_Second ctx (world s1)).1 with
         | timer_fired => GarbageCollect fuel ctx key t proposers acceptors waited
         | ctx_done => (Normal (ctx_Err ctx (world waited)), waited)
         end.
Proof.
  intros Eread Herr waited. simpl. rewrite (bind_Normal _ _ _ _ _ Eread).
  case_bool_decide as Hc; [by rewrite Hc|].
  rewrite bool_decide_eq_true_2 by done.
  unfold call_select, perform, mbind, M_bind, waited.
  by destruct (select_After_Done time_Second ctx (world s1)) as [[] w2].
Qed.


(** *** Broadcast helpers *)










End ProtocolFacts.

(** ** GrowCluster with a fresh range variable per iteration *)

Lemma same_config_refl w : same_config w w.
Proof. done. Qed.

Lemma same_config_sym w w' : same_config w w' -> same_config w' w.
Proof. intros (HA & HP & HI). by repeat split. Qed.

Lemma same_config_trans w1 w2 w3 : same_config w1 w2 -> same_config w2 w3 -> same_config w1 w3.
Proof.
  intros (HA & HP & HI) (HA' & HP' & HI'). repeat split; intros; congruence.
Qed.

Lemma no_remove_faults_config w w' :
  same_config w w' -> no_remove_faults w -> no_remove_faults w'.
Proof. intros (_ & _ & HI) Hn p. unfold fails. rewrite <- HI. apply Hn. Qed.

Lemma undoable_config target vars w0 gs w w' :
  undoable target vars w0 gs w -> same_config w w' -> undoable target vars w0 gs w'.
Proof.
  intros Hu Hc. destruct Hu.
  - constructor. by eapply same_config_trans.
  - econstructor; eauto using same_config_trans.
Qed.

Lemma undoable_alloc target vars w0 gs w y :
  undoable target vars w0 gs w -> undoable target (vars ++ [y]) w0 gs w.
Proof.
  induction 1.
  - by constructor.
  - econstructor; eauto. by apply lookup_app_l_Some.
Qed.

Lemma union_difference_fresh (A : gset Acceptor) (t : Acceptor) :
  t ∉ A -> A = ({[t]} ∪ A) ∖ {[t]}.
Proof.
  intros Hin. apply set_eq. intros y.
  rewrite elem_of_difference, elem_of_union, elem_of_singleton. split.
  - intros Hy. split; [by right|]. by intros ->.
  - by intros [[->|Hy] Hne].
Qed.

(** Removing what a call added gives back the configuration. *)
Lemma remove_after_add k x target wprev wnext w :
  add_to k x target wprev = (None, wnext) ->
  same_config wnext w ->
  no_remove_faults w ->
  exists w', remove_from k x target w = (None, w') /\ same_config wprev w'.
Proof.
  intros Hadd (HA & HP & HI) Hn. destruct (Hn x) as [HnA HnP].
  destruct k; simpl in *.
  - unfold fake_AddAccepter in Hadd.
    destruct (fails wprev x m_AddAccepter); [done|].
    case_bool_decide as Hin; [done|]. injection Hadd as <-. simpl in HA, HP, HI.
    assert (Hx : AcceptSet w x = {[target]} ∪ AcceptSet wprev x)
      by (rewrite <- HA; unfold upd; by rewrite Nat.eqb_refl).
    unfold fake_RemoveAccepter. rewrite HnA, Hx.
    rewrite bool_decide_eq_true_2 by (apply elem_of_union_l; by apply elem_of_singleton).
    eexists. split; [reflexivity|]. repeat split; simpl; try done.
    intros p. unfold upd. destruct (Nat.eqb_spec p x) as [->|Hne].
    + by apply union_difference_fresh.
    + rewrite <- HA. unfold upd. by rewrite (proj2 (Nat.eqb_neq p x) Hne).
  - unfold fake_AddPreparer in Hadd.
    destruct (fails wprev x m_AddPreparer); [done|].
    case_bool_decide as Hin; [done|]. injection Hadd as <-. simpl in HA, HP, HI.
    assert (Hx : PrepareSet w x = {[target]} ∪ PrepareSet wprev x)
      by (rewrite <- HP; unfold upd; by rewrite Nat.eqb_refl).
    unfold fake_RemovePreparer. rewrite HnP, Hx.
    rewrite bool_decide_eq_true_2 by (apply elem_of_union_l; by apply elem_of_singleton).
    eexists. split; [reflexivity|]. repeat split; simpl; try done.
    intros p. unfold upd. destruct (Nat.eqb_spec p x) as [->|Hne].
    + by apply union_difference_fresh.
    + rewrite <- HP. unfold upd. by rewrite (proj2 (Nat.eqb_neq p x) Hne).
Qed.

Lemma add_to_injected k x target w w' r :
  add_to k x target w = (r, w') -> injected w' = injected w.
Proof.
  destruct k; simpl; unfold fake_AddAccepter, fake_AddPreparer;
    repeat case_match; by intros [= <- <-].
Qed.

Lemma add_to_fails k x target w w' e :
  add_to k x target w = (Some e, w') -> w' = w.
Proof.
  destruct k; simpl; unfold fake_AddAccepter, fake_AddPreparer;
    repeat case_match; by intros [= <- <-].
Qed.

Lemma undoable_injected target vars w0 gs w :
  undoable target vars w0 gs w -> injected w = injected w0.
Proof.
  induction 1 as [w (_ & _ & HI)|gs c x k wprev wnext w _ IH _ Hadd (_ & _ & HI)].
  - done.
  - rewrite <- HI, (add_to_injected _ _ _ _ _ _ Hadd). done.
Qed.

(** Played in reverse, an undoable stack restores the configuration. *)
Lemma undo_runs target vars w0 gs w :
  undoable target vars w0 gs w ->
  no_remove_faults w0 ->
  forall f, cells f = vars -> same_config w (world (st f)) ->
  exists f', invoke_all (rev gs) f = (Normal tt, f') /\ same_config w0 (world (st f')).
Proof.
  intros Hu Hn. induction Hu as [w Hc|gs c x k wprev wnext w Hu IH Hx Hadd Hc];
    intros f Hcells Hw.
  - exists f. split; [done|]. by eapply same_config_trans.
  - rewrite rev_app_distr. simpl.
    assert (Hn' : no_remove_faults (world (st f))).
    { intros p. unfold fails. destruct Hw as (_ & _ & <-).
      rewrite (undoable_injected _ _ _ _ _ (undoable_snoc _ _ _ _ _ _ _ _ _ _ Hu Hx Hadd Hc)).
      apply Hn. }
    destruct (remove_after_add k x target wprev wnext (world (st f)) Hadd
                (same_config_trans _ _ _ Hc Hw) Hn') as (w' & Hrem & Hc').
    assert (Einv : invoke (undo_with (config (remove_event k) (remove_from k)) c target) f
                   = (Normal tt, mkFrame (cells f) (undo f)
                                   (mkState w' (trace (st f) ++ [(remove_event k x target, None)])))).
    { unfold invoke, undo_with, index, config, perform, mbind, M_bind, mret, M_ret.
      rewrite Hcells, Hx. simpl. by rewrite Hrem. }
    unfold mbind, M_bind. rewrite Einv. by apply IH.
Qed.

(** A loop whose closures get a variable of their own keeps the stack undoable. *)
Lemma range_fresh_undoable k msg target w0 : forall l var (f : frame fake),
  undoable target (cells f) w0 (undo f) (world (st f)) ->
  exists r f',
    range per_iteration var
      (step (config (add_event k) (add_to k)) (config (remove_event k) (remove_from k)) msg target)
      l f = (Normal r, f')
    /\ undoable target (cells f') w0 (undo f') (world (st f')).
Proof.
  induction l as [|x l IH]; intros var f Hu.
  - by exists None, f.
  - set (f1 := mkFrame (cells f ++ [x]) (undo f) (st f)).
    assert (Ealloc : alloc x f = (Normal (length (cells f)), f1)) by done.
    assert (Hc : cells f1 !! length (cells f) = Some x)
      by (simpl; by rewrite lookup_app_r, Nat.sub_diag).
    pose proof (step_spec (add_event k) (add_to k) (remove_event k) (remove_from k)
                  msg target _ x f1 Hc) as Estep.
    assert (Erange : range per_iteration var
              (step (config (add_event k) (add_to k))
                 (config (remove_event k) (remove_from k)) msg target) (x :: l) f
            = (r ← step (config (add_event k) (add_to k))
                   (config (remove_event k) (remove_from k)) msg target (length (cells f));
               match r with
               | Some v => mret (Some v)
               | None => range per_iteration (Some (length (cells f)))
                           (step (config (add_event k) (add_to k))
                              (config (remove_event k) (remove_from k)) msg target) l
               end) f1).
    { simpl. destruct var; by rewrite (bind_Normal _ _ _ _ _ Ealloc). }
    rewrite Erange. clear Erange.
    destruct (add_to k x target (world (st f1))) as [[er|] w] eqn:Eadd; simpl in Estep.
    + rewrite (bind_Normal _ _ _ _ _ Estep). eexists _, _. split; [reflexivity|]. simpl.
      apply add_to_fails in Eadd. subst w. by apply undoable_alloc.
    + rewrite (bind_Normal _ _ _ _ _ Estep).
      apply IH. simpl. econstructor; [by apply undoable_alloc, Hu|exact Hc|exact Eadd|done].
Qed.

(** The deferred function on an undoable stack. *)
Lemma deferred_restores target w0 (body : M (frame fake) (option error)) f0 r f1 :
  body f0 = (Normal r, f1) ->
  undoable target (cells f1) w0 (undo f1) (world (st f1)) ->
  no_remove_faults w0 ->
  exists f2, with_defer body run_undo f0 = (Normal r, f2) /\ same_config w0 (world (st f2)).
Proof.
  intros Ebody Hu Hn. unfold with_defer, run_undo. rewrite Ebody.
  destruct (undo_runs _ _ _ _ _ Hu Hn f1 eq_refl (same_config_refl _)) as (f2 & -> & Hc).
  by exists f2.
Qed.

(** Were the range variable fresh in every iteration, a GrowCluster that
    returns an error would leave every proposer's AcceptSet and
    PrepareSet as they were, provided no Remove call is made to fail. *)
Lemma GrowCluster_per_iteration_restores ctx target proposers (w : fake) e s' :
  no_remove_faults w ->
  GrowCluster per_iteration ctx target proposers (start w) = (Normal (Some e), s') ->
  forall p, AcceptSet (world s') p = AcceptSet w p /\ PrepareSet (world s') p = PrepareSet w p.
Proof.
  intros Hn Hrun.
  enough (Hc : same_config w (world s')).
  { intros p. destruct Hc as (HA & HP & _). by rewrite HA, HP. }
  assert (Hne : (0 < length proposers)%nat).
  { destruct proposers; [|simpl; lia].
    by rewrite (proj1 (empty_proposers_panic per_iteration ctx target "" tomb [] 0 (start w)))
      in Hrun. }
  rewrite GrowCluster_saga in Hrun. unfold saga in Hrun.
  set (body := saga_body _ _ _ _ _ _ _ _ _ _ _ _ _ _ _) in Hrun.
  set (f0 := mkFrame [] [] (start w)) in Hrun.
  destruct (range_fresh_undoable accept_phase "during grow step 1 (add accepter)" target w
              proposers None f0 ltac:(by constructor)) as (r1 & f1 & E1 & Hu1).
  change (range per_iteration None
            (step (config Call_AddAccepter AddAccepter) (config Call_RemoveAccepter RemoveAccepter)
               "during grow step 1 (add accepter)" target) proposers f0 = (Normal r1, f1)) in E1.
  destruct r1 as [e1|].
  { assert (Ebody : body f0 = (Normal e1, f1)).
    { unfold body, saga_body. exact (bind_Normal _ _ _ _ _ E1). }
    destruct (deferred_restores _ _ _ _ _ _ Ebody Hu1 Hn) as (f2 & Edef & Hc).
    rewrite Edef in Hrun. by injection Hrun as _ <-. }
  destruct (rand_Intn_pos (length proposers) (st f1) Hne) as (i & Hi & Erand).
  destruct (lookup_lt_is_Some_2 proposers i Hi) as [p Hp].
  set (s1 := mkState (rand_source (world (st f1))).2 (trace (st f1))) in *.
  remember (propose_reply (world s1) p) as reply eqn:Eprop.
  destruct reply as [[v b] err]. symmetry in Eprop.
  set (s2 := mkState (world s1) (trace s1 ++ [(Call_Propose p ctx zerokey identity, err)])).
  set (f2 := mkFrame (cells f1) (undo f1) s2).
  assert (Hu2 : undoable target (cells f2) w (undo f2) (world (st f2))).
  { simpl. eapply undoable_config; [exact Hu1|]. done. }
  assert (Ehead : body f0 =
            (if bool_decide (err <> None)
             then mret (errors_Wrap err "during grow step 2 (identity read)")
             else (r3 ← range per_iteration None
                          (step (config Call_AddPreparer AddPreparer)
                             (config Call_RemovePreparer RemovePreparer)
                             "during grow step 3 (add preparer)" target) proposers;
                   match r3 with
                   | Some e => mret e
                   | None => _ ← clear_undo; mret None
                   end)) f2).
  { unfold body, saga_body. rewrite (bind_Normal _ _ _ _ _ E1).
    rewrite (bind_Normal _ _ _ _ _ (lift_Normal _ _ _ _ Erand)).
    rewrite (bind_Normal _ _ _ _ _ (index_Some _ _ _ _ Hp)).
    assert (Ecall : call_Propose p ctx zerokey identity s1 = (Normal (v, b, err), s2)).
    { unfold call_Propose, perform.
      change (Propose p ctx zerokey identity (world s1)) with (propose_reply (world s1) p, world s1).
      by rewrite Eprop. }
    rewrite (bind_Normal _ _ _ _ _ (lift_Normal _ (mkFrame (cells f1) (undo f1) s1) _ _ Ecall)).
    reflexivity. }
  destruct err as [er|].
  { rewrite bool_decide_eq_true_2 in Ehead by done.
    destruct (deferred_restores _ _ _ _ _ _ Ehead Hu2 Hn) as (f3 & Edef & Hc).
    rewrite Edef in Hrun. by injection Hrun as _ <-. }
  rewrite bool_decide_eq_false_2 in Ehead by (intros ?; done).
  destruct (range_fresh_undoable prepare_phase "during grow step 3 (add preparer)" target w
              proposers None f2 Hu2) as (r3 & f3 & E3 & Hu3).
  change (range per_iteration None
            (step (config Call_AddPreparer AddPreparer) (config Call_RemovePreparer RemovePreparer)
               "during grow step 3 (add preparer)" target) proposers f2 = (Normal r3, f3)) in E3.
  destruct r3 as [e3|].
  - assert (Ebody : body f0 = (Normal e3, f3)).
    { rewrite Ehead. exact (bind_Normal _ _ _ _ _ E3). }
    destruct (deferred_restores _ _ _ _ _ _ Ebody Hu3 Hn) as (f4 & Edef & Hc).
    rewrite Edef in Hrun. by injection Hrun as _ <-.
  - exfalso. revert Hrun. unfold with_defer. rewrite Ehead.
    rewrite (bind_Normal _ _ _ _ _ E3). simpl. discriminate.
Qed.

(** ** The claims on concrete runs *)

Section Scenarios.

Local Open Scope nat_scope.

(** C1. GarbageCollect never calls FastForward or RemoveIfEmpty: in any
    world and for any arguments, the calls it adds to the trace are
    identity reads and back-off waits only. In the steady state, with
    three proposers and three acceptors, it returns nil after the single
    call FullIdentityRead. *)
Theorem GarbageCollect_omits_fast_forward_and_removal :
  (forall (W : Type) (H : World W) fuel ctx key t proposers acceptors (s : state W),
      exists added,
        trace (GarbageCollect fuel ctx key t proposers acceptors s).2 = trace s ++ added
        /\ Forall (fun en => gc_phase_a en.1) added)
  /\ (let r := GarbageCollect 1 0 "z" tomb [1; 2; 3] [1; 2; 3] (start steady) in
      r.1 = Normal None /\ trace r.2 = [(Call_FullIdentityRead 1 0 "z", None)]).
Proof.
  split; [|by split].
  intros W H fuel ctx key t proposers acceptors s.
  apply GarbageCollect_only_phase_a.
Qed.




(** S2 of the spec: growing the steady cluster by acceptor 4. *)
Lemma GrowCluster_success_sequence_witness :
  exists p,
    p ∈ [1; 2; 3]
    /\ trace (GrowCluster per_loop 0 4 [1; 2; 3] (start steady)).2
       = trace (start steady) ++ succeeded (concat (grow_steps 0 4 p [1; 2; 3]))
    /\ Forall (fun c => ~ is_Remove 4 c) (concat (grow_steps 0 4 p [1; 2; 3])).
Proof.
  apply (GrowCluster_success_sequence per_loop 0 4 [1; 2; 3] (start steady)).
  reflexivity.
Defined.

(** Shrinking by acceptor 3 with the RemoveAccepter of proposer 2 failing. *)
Lemma ShrinkCluster_mirror_witness :
  let s := start (with_injected steady [(2, m_RemoveAccepter)]) in
  exists r s' p fwd undone,
    ShrinkCluster per_loop 0 3 [1; 2; 3] s = (Normal r, s')
    /\ p ∈ [1; 2; 3]
    /\ shrink_steps 0 3 p [1; 2; 3] = map (map mirror) (rev (grow_steps 0 3 p [1; 2; 3]))
    /\ trace s' = trace s ++ fwd ++ undone
    /\ Forall (fun en => is_Add 3 en.1) undone
    /\ ((r = None /\ fwd = succeeded (concat (shrink_steps 0 3 p [1; 2; 3])) /\ undone = [])
        \/ (exists done c rest err msg,
              concat (shrink_steps 0 3 p [1; 2; 3]) = done ++ c :: rest
              /\ fwd = succeeded done ++ [(c, Some err)]
              /\ r = Some (withMessage err msg))).
Proof.
  intros s. apply (ShrinkCluster_mirror per_loop 0 3 [1; 2; 3] s). discriminate.
Defined.

(** The first read finds the key not empty: after the back-off the whole
    procedure runs again from the state the wait left. *)
Lemma GarbageCollect_retry_witness :
  let s1 := (identity_read 0 "z" [1] (start flaky)).2 in
  GarbageCollect 2 0 "z" tomb [1] [1] (start flaky)
  = GarbageCollect 1 0 "z" tomb [1] [1]
      (mkState (select_After_Done time_Second 0 (world s1)).2
               (trace s1 ++ [(Select_After_Done time_Second 0, None)])).
Proof.
  intros s1.
  exact (GarbageCollect_retry 1 0 "z" tomb [1] [1] (start flaky) s1 [7%Z] (Some ErrNotEmpty)
           eq_refl ltac:(discriminate)).
Defined.


End Scenarios.
